(** * goble: the XPC binding surface declared by [xpc_wrapper.h]

    The interface of the binding is one C header.  It is embedded here as
    the preprocessor sees it: a translation unit carries the set of macros
    defined so far and the declarations emitted so far, and every line of
    the header is a transformer of that state. *)

From stdpp Require Import gmap strings list fin_maps sorting.

Module Header.

(** ** C types and declarations, as the header writes them *)

Inductive ctype : Type :=
| CVoid
| CBool
| CStruct (tag : string)
| CTypedef (name : string)
| CPtr (target : ctype).

#[global] Instance ctype_eq_dec : EqDecision ctype.
Proof. solve_decision. Defined.

Inductive decl : Type :=
| ExternVar (ty : ctype) (name : string)
| ExternFun (ret : ctype) (name : string) (params : list ctype).

#[global] Instance decl_eq_dec : EqDecision decl.
Proof. solve_decision. Defined.

(** The three typedef names the header takes from [<xpc/xpc.h>]. *)
Definition xpc_type_t : ctype := CTypedef "xpc_type_t".
Definition xpc_object_t : ctype := CTypedef "xpc_object_t".
Definition xpc_connection_t : ctype := CTypedef "xpc_connection_t".

(** ** The preprocessor state of a translation unit *)

Record unit_state : Type := UnitState {
  macros : gset string;
  decls : list decl
}.

Definition directive : Type := unit_state -> unit_state.

Definition fresh_unit : unit_state := UnitState ∅ [].

(** [#ifndef m ... #endif] *)
Definition ifndef (m : string) (body : directive) : directive :=
  fun u => if decide (m ∈ macros u) then u else body u.

(** [#define m] *)
Definition define (m : string) : directive :=
  fun u => UnitState ({[ m ]} ∪ macros u) (decls u).

(** A declaration at file scope, recorded as the header writes it.  Macro
    replacement inside the line is not modelled: the record is what the
    compiler sees when none of the identifiers of the line is a macro (see
    [written_as_is] below). *)
Definition declare (d : decl) : directive :=
  fun u => UnitState (macros u) (decls u ++ [d]).

(** One line after the other. *)
Definition then_ (a b : directive) : directive := fun u => b (a u).

(** A header that contributes nothing. *)
Definition skip : directive := fun u => u.

Declare Scope header_scope.
Delimit Scope header_scope with header.
Notation "a ;; b" := (then_ a b)
  (at level 100, b at level 200, right associativity) : header_scope.

(** ** The header itself

    The three system headers it includes are not part of the repository;
    they are parameters. *)

Section XpcWrapperH.

Variables stdlib_h stdio_h xpc_xpc_h : directive.

Definition xpc_wrapper_h : directive :=
  ifndef "_WRAPPER_H_" (
    define "_WRAPPER_H_" ;;

    stdlib_h ;;
    stdio_h ;;
    xpc_xpc_h ;;

    declare (ExternVar xpc_type_t "TYPE_ERROR") ;;

    declare (ExternVar xpc_type_t "TYPE_ARRAY") ;;
    declare (ExternVar xpc_type_t "TYPE_DATA") ;;
    declare (ExternVar xpc_type_t "TYPE_DICT") ;;
    declare (ExternVar xpc_type_t "TYPE_INT64") ;;
    declare (ExternVar xpc_type_t "TYPE_STRING") ;;

    declare (ExternVar xpc_object_t "ERROR_CONNECTION_INVALID") ;;
    declare (ExternVar xpc_object_t "ERROR_CONNECTION_INTERRUPTED") ;;
    declare (ExternVar xpc_object_t "ERROR_CONNECTION_TERMINATED") ;;

    declare (ExternFun xpc_connection_t "XpcConnectBlued" [CPtr CVoid]) ;;
    declare (ExternFun CVoid "XpcSendMessage"
               [xpc_connection_t; xpc_object_t; CBool]) ;;
    declare (ExternFun CVoid "XpcArrayApply" [CPtr CVoid; xpc_object_t]) ;;
    declare (ExternFun CVoid "XpcDictApply" [CPtr CVoid; xpc_object_t])
  )%header.

End XpcWrapperH.

(** The binding surface: what the header alone contributes to a fresh
    translation unit. *)
Definition xpc_wrapper_surface : list decl :=
  decls (xpc_wrapper_h skip skip skip fresh_unit).

(** ** Reading a declaration list *)

Definition is_function (d : decl) : bool :=
  match d with ExternFun _ _ _ => true | ExternVar _ _ => false end.

Definition exported_functions (ds : list decl) : list decl :=
  List.filter is_function ds.

Definition decl_name (d : decl) : string :=
  match d with ExternVar _ n => n | ExternFun _ n _ => n end.

(** Names of the variables declared with type [ty]. *)
Definition variables_of_type (ty : ctype) (ds : list decl) : list string :=
  omap (fun d => match d with
                 | ExternVar t n => if decide (t = ty) then Some n else None
                 | ExternFun _ _ _ => None
                 end) ds.

Definition type_token_vars (ds : list decl) : list string :=
  variables_of_type xpc_type_t ds.

Definition error_sentinel_vars (ds : list decl) : list string :=
  variables_of_type xpc_object_t ds.

Definition find_function (n : string) (ds : list decl) : option decl :=
  List.find (fun d => is_function d && bool_decide (decl_name d = n)) ds.

Definition return_type (n : string) (ds : list decl) : option ctype :=
  match find_function n ds with
  | Some (ExternFun r _ _) => Some r
  | _ => None
  end.

Definition param_type (n : string) (i : nat) (ds : list decl) : option ctype :=
  match find_function n ds with
  | Some (ExternFun _ _ ps) => ps !! i
  | _ => None
  end.

(** A header leaves the macro [m] defined once it is. *)
Definition keeps_defined (m : string) (h : directive) : Prop :=
  forall u, m ∈ macros u -> m ∈ macros (h u).

(** A header neither defines nor undefines the macro [m]. *)
Definition leaves_alone (m : string) (h : directive) : Prop :=
  forall u, m ∈ macros (h u) <-> m ∈ macros u.






(** ** The surface in the words of the specification

    Section 6 lists four functions: connect, from an opaque pointer to a
    handle; send, from a handle, an object and a bool to nothing;
    array-apply and dict-apply, each from an opaque pointer and an object to
    nothing. *)

Inductive role : Type :=
| OpaquePointer | ConnectionHandle | MessageObject | BooleanFlag | NoValue.

Record signature : Type := Signature {
  operation : string;
  takes : list role;
  gives : role
}.

Definition spec_functions : list signature :=
  [ Signature "connect" [OpaquePointer] ConnectionHandle;
    Signature "send" [ConnectionHandle; MessageObject; BooleanFlag] NoValue;
    Signature "array-apply" [OpaquePointer; MessageObject] NoValue;
    Signature "dict-apply" [OpaquePointer; MessageObject] NoValue ].

Definition role_of (t : ctype) : option role :=
  match t with
  | CVoid => Some NoValue
  | CBool => Some BooleanFlag
  | CPtr CVoid => Some OpaquePointer
  | CTypedef n =>
      if decide (n = "xpc_connection_t") then Some ConnectionHandle
      else if decide (n = "xpc_object_t") then Some MessageObject
      else None
  | _ => None
  end.

Definition operation_of (n : string) : option string :=
  if decide (n = "XpcConnectBlued") then Some "connect"
  else if decide (n = "XpcSendMessage") then Some "send"
  else if decide (n = "XpcArrayApply") then Some "array-apply"
  else if decide (n = "XpcDictApply") then Some "dict-apply"
  else None.

Definition describe (d : decl) : option signature :=
  match d with
  | ExternFun r n ps =>
      op ← operation_of n;
      args ← mapM role_of ps;
      res ← role_of r;
      Some (Signature op args res)
  | ExternVar _ _ => None
  end.

End Header.

(** * The external library and the absent definitions

    The values of the header's extern variables and the bodies of its four
    functions are defined in a C file that is not among the sources, on top
    of the system's XPC library.  What is needed of them is modelled from
    the specification; every such definition says so. *)

Module Xpc.

(** Handles, tokens and objects are pointers at the C level. *)
Definition pointer : Type := N.


(** Modelled from the spec: the runtime types of a message object, which
    the library (not the repository) defines.  Section 3: a message object
    is "one of: array, byte-buffer, dictionary, 64-bit integer, string, or
    error". *)
Inductive runtime_type : Type :=
| RtError | RtArray | RtData | RtDict | RtInt64 | RtString.

(** Modelled from the spec: the terminal connection conditions of the
    library.  Section 3: an error sentinel represents "a terminal
    connection condition (invalid, interrupted, terminated)". *)
Inductive connection_condition : Type :=
| ConnectionInvalid | ConnectionInterrupted | ConnectionTerminated.

(** Modelled from the spec: what a message object holds; the library's
    object representation is absent.  Elements and dictionary values are
    message objects themselves, held by reference. *)
Inductive payload : Type :=
| PArray (elems : list pointer)
| PData (bytes : list N)
| PDict (entries : gmap string pointer)
| PInt64 (n : Z)
| PString (s : string)
| PError (c : connection_condition).

(** Modelled from the spec: the process-wide state of the library, absent
    from the repository.  [type_identifiers] says which runtime type each
    type token identifies, [objects] holds the message objects by identity,
    and [dict_order] is the order in which the library arranges a
    dictionary ("whatever the external library defines for its map
    objects"). *)
Record library : Type := Library {
  type_identifiers : gmap pointer runtime_type;
  objects : gmap pointer payload;
  dict_order : gmap string pointer -> list (string * pointer)
}.

#[global] Instance runtime_type_eq_dec : EqDecision runtime_type.
Proof. solve_decision. Defined.

#[global] Instance connection_condition_eq_dec :
  EqDecision connection_condition.
Proof. solve_decision. Defined.

(** Modelled from the spec: the library's "singleton identifier" of a
    runtime type, absent from the repository: the pointer that
    [type_identifiers] gives that type (the first one, should the table
    hold several). *)
Definition type_identifier (lib : library) (t : runtime_type)
    : option pointer :=
  fst <$> List.find (fun e => bool_decide (e.2 = t))
            (map_to_list (type_identifiers lib)).

(** The object holds the error for the connection condition [c]. *)
Definition represents (c : connection_condition) (p : payload) : bool :=
  match p with
  | PError c' => bool_decide (c' = c)
  | _ => false
  end.

(** Modelled from the spec: the library's singleton object "representing
    a terminal connection condition", absent from the repository: the
    object of the library that holds the error for that condition (the
    first one, should there be several). *)
Definition error_object (lib : library) (c : connection_condition)
    : option pointer :=
  fst <$> List.find (fun e => represents c e.2) (map_to_list (objects lib)).

(** Modelled from the spec: the initialisers of the header's six type-token
    variables are in a file that is absent.  Section 3: a type token is "a
    singleton identifier used to test the runtime type of a message
    object"; each variable holds the library's identifier of its runtime
    type, if the library has one. *)
Definition TYPE_ERROR (lib : library) : option pointer :=
  type_identifier lib RtError.

(** Modelled from the spec: as [TYPE_ERROR], for arrays. *)
Definition TYPE_ARRAY (lib : library) : option pointer :=
  type_identifier lib RtArray.

(** Modelled from the spec: as [TYPE_ERROR], for byte buffers. *)
Definition TYPE_DATA (lib : library) : option pointer :=
  type_identifier lib RtData.

(** Modelled from the spec: as [TYPE_ERROR], for dictionaries. *)
Definition TYPE_DICT (lib : library) : option pointer :=
  type_identifier lib RtDict.

(** Modelled from the spec: as [TYPE_ERROR], for 64-bit integers. *)
Definition TYPE_INT64 (lib : library) : option pointer :=
  type_identifier lib RtInt64.

(** Modelled from the spec: as [TYPE_ERROR], for strings. *)
Definition TYPE_STRING (lib : library) : option pointer :=
  type_identifier lib RtString.

(** Modelled from the spec: the initialisers of the header's three error
    sentinels are in a file that is absent.  Section 3: an error sentinel is
    "one of three singleton objects representing a terminal connection
    condition (invalid, interrupted, terminated)"; each variable holds the
    library's object for its condition, if the library has one. *)
Definition ERROR_CONNECTION_INVALID (lib : library) : option pointer :=
  error_object lib ConnectionInvalid.

(** Modelled from the spec: as [ERROR_CONNECTION_INVALID], for an
    interrupted connection. *)
Definition ERROR_CONNECTION_INTERRUPTED (lib : library) : option pointer :=
  error_object lib ConnectionInterrupted.

(** Modelled from the spec: as [ERROR_CONNECTION_INVALID], for a
    terminated connection. *)
Definition ERROR_CONNECTION_TERMINATED (lib : library) : option pointer :=
  error_object lib ConnectionTerminated.

(** The variables by name, in the order of the header. *)
Definition type_token_bindings (lib : library)
    : list (string * option pointer) :=
  [ ("TYPE_ERROR", TYPE_ERROR lib);
    ("TYPE_ARRAY", TYPE_ARRAY lib);
    ("TYPE_DATA", TYPE_DATA lib);
    ("TYPE_DICT", TYPE_DICT lib);
    ("TYPE_INT64", TYPE_INT64 lib);
    ("TYPE_STRING", TYPE_STRING lib) ].

Definition error_sentinel_bindings (lib : library)
    : list (string * option pointer) :=
  [ ("ERROR_CONNECTION_INVALID", ERROR_CONNECTION_INVALID lib);
    ("ERROR_CONNECTION_INTERRUPTED", ERROR_CONNECTION_INTERRUPTED lib);
    ("ERROR_CONNECTION_TERMINATED", ERROR_CONNECTION_TERMINATED lib) ].

(** Where an entry stands in a list of entries; past the end if it does
    not occur. *)
Definition position_in (order : list (string * pointer))
    (kv : string * pointer) : nat :=
  default (length order) (fst <$> list_find (fun x => x = kv) order).

Definition comes_before (order : list (string * pointer))
    (a b : string * pointer) : Prop :=
  position_in order a <= position_in order b.

#[global] Instance comes_before_dec (order : list (string * pointer))
    (a b : string * pointer) : Decision (comes_before order a b).
Proof. unfold comes_before. apply _. Defined.

(** Modelled from the spec: the library's walk over a dictionary, absent
    from the repository.  Section 4.1: "once per key/value pair", in an
    order that "is whatever the external library defines for its map
    objects": the entries of the dictionary, arranged by where the
    library's [dict_order] puts them (what it leaves out comes last). *)
Definition dict_walk (lib : library) (m : gmap string pointer)
    : list (string * pointer) :=
  merge_sort (comes_before (dict_order lib m)) (map_to_list m).

(** ** The two apply functions *)

(** One invocation of a visitor callback, as an observer records it. *)
Inductive call : Type :=
| ElementVisit (ctx : pointer) (value : pointer)
| EntryVisit (ctx : pointer) (key : string) (value : pointer).

#[global] Instance call_eq_dec : EqDecision call.
Proof. solve_decision. Defined.

Section Apply.

(** The caller's world, and the callbacks the context pointer stands for;
    both are defined by the caller. *)
Context {W : Type}.
Variable array_visitor : pointer -> pointer -> W -> W.
Variable dict_visitor : pointer -> string -> pointer -> W -> W.

(** The state threaded through a call: the caller's world and the log of
    visitor invocations. *)
Record run : Type := Run {
  world : W;
  calls : list call
}.

Definition invoke_array_visitor (ctx value : pointer) (r : run) : run :=
  Run (array_visitor ctx value (world r)) (calls r ++ [ElementVisit ctx value]).

Definition invoke_dict_visitor (ctx : pointer) (kv : string * pointer)
    (r : run) : run :=
  Run (dict_visitor ctx kv.1 kv.2 (world r))
      (calls r ++ [EntryVisit ctx kv.1 kv.2]).

Fixpoint for_each {A : Type} (f : A -> run -> run) (l : list A) (r : run)
    : run :=
  match l with
  | [] => r
  | x :: rest => for_each f rest (f x r)
  end.

(** Modelled from the spec: the body of [XpcArrayApply] is absent.  Section
    4.1: it "invokes a visitor callback (identified by the opaque context
    pointer) once per element of an array-typed message object, in the
    array's existing order.  Side effect only; no aggregated result."  On
    an object that is not an array the spec defines nothing ([None]). *)
Definition XpcArrayApply (lib : library) (ctx : pointer) (arr : pointer)
    (r : run) : option run :=
  match objects lib !! arr with
  | Some (PArray elems) => Some (for_each (invoke_array_visitor ctx) elems r)
  | _ => None
  end.

(** Modelled from the spec: the body of [XpcDictApply] is absent.  Section
    4.1: it "invokes a visitor callback once per key/value pair of a
    dictionary-typed message object; iteration order is whatever the
    external library defines for its map objects".  On an object that is
    not a dictionary the spec defines nothing ([None]). *)
Definition XpcDictApply (lib : library) (ctx : pointer) (dict : pointer)
    (r : run) : option run :=
  match objects lib !! dict with
  | Some (PDict entries) =>
      Some (for_each (invoke_dict_visitor ctx) (dict_walk lib entries) r)
  | _ => None
  end.

End Apply.

Arguments run W : clear implicits.

End Xpc.

(** * Sample inputs *)

Module Samples.
Import Header Xpc.

(** A guarded system header with one declaration of its own. *)
Definition guarded_header (guard : string) (d : decl) : directive :=
  ifndef guard (define guard ;; declare d)%header.

Definition sample_stdlib_h : directive :=
  guarded_header "_STDLIB_H_" (ExternFun CVoid "free" [CPtr CVoid]).

Definition sample_stdio_h : directive :=
  guarded_header "_STDIO_H_"
    (ExternFun CVoid "rewind" [CPtr (CTypedef "FILE")]).

Definition sample_xpc_h : directive :=
  guarded_header "__XPC_H__" (ExternFun CVoid "xpc_release" [xpc_object_t]).

Definition sample_entries : gmap string pointer :=
  {[ "kCBMsgId" := 20%N; "kCBMsgArgs" := 21%N ]}.

Definition sample_objects : gmap pointer payload :=
  {[ 10%N := PError ConnectionInvalid;
     11%N := PError ConnectionInterrupted;
     12%N := PError ConnectionTerminated;
     20%N := PInt64 7;
     21%N := PString "blued";
     30%N := PArray [20%N; 21%N; 20%N];
     31%N := PArray [];
     32%N := PDict sample_entries ]}.

Definition sample_type_identifiers : gmap pointer runtime_type :=
  {[ 1%N := RtError; 2%N := RtArray; 3%N := RtData;
     4%N := RtDict; 5%N := RtInt64; 6%N := RtString ]}.

Definition sample_library : library :=
  Library sample_type_identifiers sample_objects map_to_list.

(** The same library walking its dictionaries the other way round. *)
Definition backwards_library : library :=
  Library sample_type_identifiers sample_objects
    (fun m => reverse (map_to_list m)).

(** A visitor that counts its invocations in the caller's world. *)
Definition counting_array_visitor (ctx value : pointer) (w : nat) : nat :=
  S w.

Definition counting_dict_visitor (ctx : pointer) (key : string)
    (value : pointer) (w : nat) : nat :=
  S w.

End Samples.

(** * Properties of the header *)

Module HeaderFacts.
Import Header Samples.

(** A declaration leaves the macros alone. *)
Lemma macros_declare (d : decl) (u : unit_state) :
  macros (declare d u) = macros u.
Proof. reflexivity. Qed.

Lemma ifndef_defined (m : string) (body : directive) (u : unit_state) :
  m ∈ macros u -> ifndef m body u = u.
Proof. intros Hin. unfold ifndef. destruct (decide (m ∈ macros u)); done. Qed.

Lemma ifndef_undefined (m : string) (body : directive) (u : unit_state) :
  m ∉ macros u -> ifndef m body u = body u.
Proof. intros Hout. unfold ifndef. destruct (decide (m ∈ macros u)); done. Qed.

Lemma define_defines (m : string) (u : unit_state) : m ∈ macros (define m u).
Proof. unfold define; simpl. set_solver. Qed.

Lemma guarded_header_keeps (m guard : string) (d : decl) :
  keeps_defined m (guarded_header guard d).
Proof.
  intros u Hin. unfold guarded_header, ifndef.
  destruct (decide (guard ∈ macros u)); [done |].
  unfold then_, declare, define; simpl. set_solver.
Qed.

Section Inclusion.

Variables stdlib_h stdio_h xpc_xpc_h : directive.
Hypothesis stdlib_keeps : keeps_defined "_WRAPPER_H_" stdlib_h.
Hypothesis stdio_keeps : keeps_defined "_WRAPPER_H_" stdio_h.
Hypothesis xpc_keeps : keeps_defined "_WRAPPER_H_" xpc_xpc_h.

(** After one inclusion the guard macro is defined. *)
Lemma guard_defined_after_inclusion (u : unit_state) :
  "_WRAPPER_H_" ∈ macros (xpc_wrapper_h stdlib_h stdio_h xpc_xpc_h u).
Proof using stdlib_keeps stdio_keeps xpc_keeps.
  unfold xpc_wrapper_h, ifndef.
  destruct (decide ("_WRAPPER_H_" ∈ macros u)) as [Hin | Hout]; [done |].
  unfold then_. rewrite !macros_declare.
  apply xpc_keeps, stdio_keeps, stdlib_keeps, define_defines.
Qed.

(** An inclusion that finds the guard defined changes nothing. *)
Lemma later_inclusion_is_empty (u : unit_state) :
  "_WRAPPER_H_" ∈ macros u -> xpc_wrapper_h stdlib_h stdio_h xpc_xpc_h u = u.
Proof using Type.
  intros Hin. unfold xpc_wrapper_h. by apply ifndef_defined.
Qed.


Lemma repeated_inclusion (n : nat) (u : unit_state) :
  Nat.iter (S n) (xpc_wrapper_h stdlib_h stdio_h xpc_xpc_h) u
  = xpc_wrapper_h stdlib_h stdio_h xpc_xpc_h u.
Proof using stdlib_keeps stdio_keeps xpc_keeps.
  induction n as [| n IH]; [reflexivity |].
  rewrite Nat.iter_succ, IH.
  apply later_inclusion_is_empty, guard_defined_after_inclusion.
Qed.

End Inclusion.

(** C10.  Including the header again is idempotent: provided the system
    headers it pulls in leave its guard macro defined, every inclusion after
    the first returns the translation unit as it found it, so it adds no
    declaration (and no macro), and any number of inclusions in a row leaves
    the same declarations as a single one. *)
Theorem include_guard_idempotent (stdlib_h stdio_h xpc_xpc_h : directive) :
  keeps_defined "_WRAPPER_H_" stdlib_h ->
  keeps_defined "_WRAPPER_H_" stdio_h ->
  keeps_defined "_WRAPPER_H_" xpc_xpc_h ->
  forall (u : unit_state) (n : nat),
    let include := xpc_wrapper_h stdlib_h stdio_h xpc_xpc_h in
    include (include u) = include u /\
    Nat.iter (S n) include u = include u /\
    decls (Nat.iter (S n) include u) = decls (include u).
Proof.
  intros H1 H2 H3 u n include.
  assert (Hn : Nat.iter (S n) include u = include u)
    by (apply repeated_inclusion; assumption).
  split; [| split].
  - apply later_inclusion_is_empty, guard_defined_after_inclusion; assumption.
  - exact Hn.
  - by rewrite Hn.
Qed.

Lemma include_guard_idempotent_witness :
  keeps_defined "_WRAPPER_H_" sample_stdlib_h /\
  keeps_defined "_WRAPPER_H_" sample_stdio_h /\
  keeps_defined "_WRAPPER_H_" sample_xpc_h /\
  let include := xpc_wrapper_h sample_stdlib_h sample_stdio_h sample_xpc_h in
  include (include fresh_unit) = include fresh_unit /\
  Nat.iter 3 include fresh_unit = include fresh_unit /\
  decls (Nat.iter 3 include fresh_unit) = decls (include fresh_unit).
Proof.
  split; [| split; [| split]]; try apply guarded_header_keeps.
  apply (include_guard_idempotent sample_stdlib_h sample_stdio_h sample_xpc_h);
    apply guarded_header_keeps.
Defined.

(** C1.  The header declares exactly four functions, with exactly the
    signatures the specification lists: connect takes one opaque pointer and
    returns a connection handle; send takes a connection handle, a message
    object and a boolean flag and returns nothing; array-apply and
    dict-apply each take an opaque pointer and a message object and return
    nothing. *)
Theorem binding_surface_functions :
  exported_functions xpc_wrapper_surface =
    [ ExternFun xpc_connection_t "XpcConnectBlued" [CPtr CVoid];
      ExternFun CVoid "XpcSendMessage" [xpc_connection_t; xpc_object_t; CBool];
      ExternFun CVoid "XpcArrayApply" [CPtr CVoid; xpc_object_t];
      ExternFun CVoid "XpcDictApply" [CPtr CVoid; xpc_object_t] ] /\
  length (exported_functions xpc_wrapper_surface) = 4 /\
  mapM describe (exported_functions xpc_wrapper_surface) = Some spec_functions.
Proof. repeat split. Qed.

(** What the header shows of the result of send: it is declared to return
    nothing. *)
Lemma send_returns_void :
  return_type "XpcSendMessage" xpc_wrapper_surface = Some CVoid.
Proof. reflexivity. Qed.

(** What the header shows of the handle and object types: connect returns,
    and send takes first, a value declared [xpc_connection_t]; messages and
    error sentinels are declared [xpc_object_t]; the two typedef names
    differ.  What the names stand for is decided by [<xpc/xpc.h>]. *)
Lemma handle_and_object_type_names :
  return_type "XpcConnectBlued" xpc_wrapper_surface = Some xpc_connection_t /\
  param_type "XpcSendMessage" 0 xpc_wrapper_surface = Some xpc_connection_t /\
  param_type "XpcSendMessage" 1 xpc_wrapper_surface = Some xpc_object_t /\
  param_type "XpcArrayApply" 1 xpc_wrapper_surface = Some xpc_object_t /\
  param_type "XpcDictApply" 1 xpc_wrapper_surface = Some xpc_object_t /\
  length (error_sentinel_vars xpc_wrapper_surface) = 3 /\
  xpc_connection_t <> xpc_object_t.
Proof. repeat split. discriminate. Qed.

(** C2, as the specification states it, fails: the header does not declare
    five type-token variables. *)
Lemma type_token_count_is_not_five :
  length (type_token_vars xpc_wrapper_surface) <> 5.
Proof. vm_compute. discriminate. Qed.

(** C2, amended.  The header declares exactly six type-token variables, the
    tokens for error, array, data, dictionary, int64 and string, and no
    others. *)
Theorem binding_surface_type_tokens :
  type_token_vars xpc_wrapper_surface =
    [ "TYPE_ERROR"; "TYPE_ARRAY"; "TYPE_DATA";
      "TYPE_DICT"; "TYPE_INT64"; "TYPE_STRING" ] /\
  length (type_token_vars xpc_wrapper_surface) = 6.
Proof. split; reflexivity. Qed.

End HeaderFacts.

(** * Properties of the tokens, the sentinels and the apply functions *)

Module XpcFacts.
Import Header Xpc Samples.



Section Log.

Context {W : Type}.
Variable array_visitor : pointer -> pointer -> W -> W.
Variable dict_visitor : pointer -> string -> pointer -> W -> W.

(** A walk appends one call per item, in the order of the items. *)
Lemma calls_for_each_array (ctx : pointer) (elems : list pointer)
    (r : run W) :
  calls (for_each (invoke_array_visitor array_visitor ctx) elems r)
  = calls r ++ (ElementVisit ctx <$> elems).
Proof.
  revert r. induction elems as [| v rest IH]; intros r; simpl.
  - by rewrite app_nil_r.
  - rewrite IH. simpl. by rewrite <- app_assoc.
Qed.

Lemma world_for_each_array (ctx : pointer) (elems : list pointer)
    (r : run W) :
  world (for_each (invoke_array_visitor array_visitor ctx) elems r)
  = foldl (fun w v => array_visitor ctx v w) (world r) elems.
Proof.
  revert r. induction elems as [| v rest IH]; intros r; simpl; [done |].
  by rewrite IH.
Qed.

Lemma calls_for_each_dict (ctx : pointer) (kvs : list (string * pointer))
    (r : run W) :
  calls (for_each (invoke_dict_visitor dict_visitor ctx) kvs r)
  = calls r ++ ((fun kv => EntryVisit ctx kv.1 kv.2) <$> kvs).
Proof.
  revert r. induction kvs as [| kv rest IH]; intros r; simpl.
  - by rewrite app_nil_r.
  - rewrite IH. simpl. by rewrite <- app_assoc.
Qed.

Lemma world_for_each_dict (ctx : pointer) (kvs : list (string * pointer))
    (r : run W) :
  world (for_each (invoke_dict_visitor dict_visitor ctx) kvs r)
  = foldl (fun w kv => dict_visitor ctx kv.1 kv.2 w) (world r) kvs.
Proof.
  revert r. induction kvs as [| kv rest IH]; intros r; simpl; [done |].
  by rewrite IH.
Qed.

End Log.


(** The library has an identifier to hand out as soon as its table holds
    one. *)
Lemma type_identifier_exists (lib : library) (t : runtime_type)
    (p : pointer) :
  type_identifiers lib !! p = Some t -> is_Some (type_identifier lib t).
Proof.
  intros Hp. unfold type_identifier.
  destruct (List.find _ _) as [e |] eqn:Hf; [by eexists |].
  apply elem_of_map_to_list, list_elem_of_In in Hp.
  apply (find_none _ _ Hf) in Hp. simpl in Hp.
  by rewrite bool_decide_eq_false in Hp.
Qed.


Lemma error_object_exists (lib : library) (c : connection_condition)
    (p : pointer) :
  objects lib !! p = Some (PError c) -> is_Some (error_object lib c).
Proof.
  intros Hp. unfold error_object.
  destruct (List.find _ _) as [e |] eqn:Hf; [by eexists |].
  apply elem_of_map_to_list, list_elem_of_In in Hp.
  apply (find_none _ _ Hf) in Hp. simpl in Hp.
  by rewrite bool_decide_eq_false in Hp.
Qed.

(** The walk over a dictionary is an arrangement of its entries, whatever
    order the library proposes. *)
Lemma dict_walk_enumerates (lib : library) (m : gmap string pointer) :
  dict_walk lib m ≡ₚ map_to_list m.
Proof. unfold dict_walk. apply merge_sort_Permutation. Qed.

(** Different entries give different calls. *)
Lemma entry_visit_inj (ctx : pointer) :
  Inj (=) (=) (fun kv : string * pointer => EntryVisit ctx kv.1 kv.2).
Proof. intros [k1 v1] [k2 v2] Heq; simpl in Heq. by inversion Heq. Qed.

(** An entry of a list stands at its position in the list. *)
Lemma lookup_position_in (order : list (string * pointer))
    (kv : string * pointer) :
  kv ∈ order -> order !! position_in order kv = Some kv.
Proof.
  intros Hin. unfold position_in.
  destruct (list_find_elem_of (fun x => x = kv) order kv Hin eq_refl)
    as [[i x] Hfind].
  rewrite Hfind. simpl.
  apply list_find_Some in Hfind as (Hi & -> & _). done.
Qed.

Lemma position_in_lookup (order : list (string * pointer)) (i : nat)
    (kv : string * pointer) :
  NoDup order -> order !! i = Some kv -> position_in order kv = i.
Proof.
  intros Hnd Hi. apply (NoDup_lookup order _ _ kv Hnd); [| done].
  apply lookup_position_in. by eapply list_elem_of_lookup_2.
Qed.

Lemma comes_before_trans (order : list (string * pointer)) :
  Transitive (comes_before order).
Proof. intros a b c. unfold comes_before. lia. Qed.

Lemma comes_before_total (order : list (string * pointer)) :
  Total (comes_before order).
Proof. intros a b. unfold comes_before. lia. Qed.

(** A list without repetition is sorted by the positions in itself. *)
Lemma sorted_by_own_positions (order pre suf : list (string * pointer)) :
  NoDup order -> order = pre ++ suf ->
  StronglySorted (comes_before order) suf.
Proof.
  intros Hnd. revert pre.
  induction suf as [| x rest IH]; intros pre Heq; [constructor |].
  constructor.
  - apply (IH (pre ++ [x])). by rewrite <- app_assoc.
  - apply Forall_forall. intros y Hy.
    apply list_elem_of_lookup in Hy as [k Hk]. unfold comes_before.
    rewrite (position_in_lookup order (length pre) x Hnd).
    + rewrite (position_in_lookup order (length pre + S k) y Hnd); [lia |].
      subst order. rewrite lookup_app_r by lia.
      replace (length pre + S k - length pre) with (S k) by lia. done.
    + subst order. by rewrite list_lookup_middle.
Qed.

(** The walk is the library's order whenever that order is an arrangement
    of the entries: every order of the entries can be the library's. *)
Lemma dict_walk_follows_library (lib : library) (m : gmap string pointer) :
  dict_order lib m ≡ₚ map_to_list m -> dict_walk lib m = dict_order lib m.
Proof.
  intros Hperm.
  assert (Hnd : NoDup (dict_order lib m))
    by (rewrite Hperm; apply NoDup_map_to_list).
  apply (StronglySorted_unique_strong (comes_before (dict_order lib m))).
  - intros x1 x2 Hx1 Hx2 H12 H21. unfold comes_before in H12, H21.
    rewrite dict_walk_enumerates, <- Hperm in Hx1.
    apply lookup_position_in in Hx1, Hx2.
    replace (position_in (dict_order lib m) x1)
      with (position_in (dict_order lib m) x2) in Hx1 by lia.
    congruence.
  - pose proof (comes_before_trans (dict_order lib m)) as Htrans.
    pose proof (comes_before_total (dict_order lib m)) as Htotal.
    unfold dict_walk. by apply StronglySorted_merge_sort.
  - by apply (sorted_by_own_positions _ []).
  - by rewrite dict_walk_enumerates.
Qed.


(** In the sample library every type token and every sentinel has a
    value. *)
Example sample_library_bindings :
  type_token_bindings sample_library =
    [ ("TYPE_ERROR", Some 1%N); ("TYPE_ARRAY", Some 2%N);
      ("TYPE_DATA", Some 3%N); ("TYPE_DICT", Some 4%N);
      ("TYPE_INT64", Some 5%N); ("TYPE_STRING", Some 6%N) ] /\
  error_sentinel_bindings sample_library =
    [ ("ERROR_CONNECTION_INVALID", Some 10%N);
      ("ERROR_CONNECTION_INTERRUPTED", Some 11%N);
      ("ERROR_CONNECTION_TERMINATED", Some 12%N) ].
Proof. split; vm_compute; reflexivity. Qed.




(** C5.  On an array-typed message object, array-apply invokes the visitor
    exactly once per element, in the order of the array: the i-th new call
    is the visit of the i-th element and there are as many calls as
    elements.  On the empty array it invokes the visitor zero times and
    leaves the caller's world and the call log as they were. *)
Theorem array_apply_visits_each_element {W : Type}
    (array_visitor : pointer -> pointer -> W -> W) (lib : library)
    (ctx arr : pointer) (elems : list pointer) (r : run W) :
  objects lib !! arr = Some (PArray elems) ->
  exists (r' : run W) (new : list call),
    XpcArrayApply array_visitor lib ctx arr r = Some r' /\
    calls r' = calls r ++ new /\
    length new = length elems /\
    (forall i : nat, new !! i = ElementVisit ctx <$> elems !! i) /\
    world r' = foldl (fun w v => array_visitor ctx v w) (world r) elems /\
    (elems = [] -> new = [] /\ r' = r).
Proof.
  intros Harr. unfold XpcArrayApply. rewrite Harr.
  eexists _, (ElementVisit ctx <$> elems).
  split; [reflexivity |]. split; [apply calls_for_each_array |].
  split; [apply length_fmap |]. split; [intros i; apply list_lookup_fmap |].
  split; [apply world_for_each_array |].
  intros ->. split; reflexivity.
Qed.

Lemma array_apply_visits_each_element_witness :
  objects sample_library !! 30%N = Some (PArray [20%N; 21%N; 20%N]) /\
  exists (r' : run nat) (new : list call),
    XpcArrayApply counting_array_visitor sample_library 99%N 30%N (Run 0 [])
      = Some r' /\
    calls r' = [] ++ new /\
    length new = 3 /\
    (forall i : nat,
       new !! i = ElementVisit 99%N <$> [20%N; 21%N; 20%N] !! i) /\
    world r' = 3 /\
    ([20%N; 21%N; 20%N] = [] -> new = [] /\ r' = Run 0 []).
Proof.
  split; [reflexivity |].
  apply (array_apply_visits_each_element counting_array_visitor
           sample_library 99%N 30%N [20%N; 21%N; 20%N] (Run 0 [])).
  reflexivity.
Defined.

(** The empty array of the sample library: no call, nothing changed. *)
Example array_apply_empty_sample :
  XpcArrayApply counting_array_visitor sample_library 99%N 31%N
    (Run 5 [ElementVisit 1%N 2%N])
  = Some (Run 5 [ElementVisit 1%N 2%N]).
Proof. reflexivity. Qed.

(** C6.  On a dictionary-typed message object with N key/value entries,
    dict-apply invokes the visitor exactly N times, exactly once per entry:
    it runs the visitor, and logs a call, for each element of an
    arrangement of the entries; the new calls are pairwise different, and a
    call is among them exactly when it is the visit of an entry of the
    dictionary.  Nothing is said of the arrangement beyond its being the
    library's. *)
Theorem dict_apply_visits_each_entry {W : Type}
    (dict_visitor : pointer -> string -> pointer -> W -> W) (lib : library)
    (ctx dict : pointer) (entries : gmap string pointer) (r : run W) :
  objects lib !! dict = Some (PDict entries) ->
  exists (r' : run W) (new : list call) (order : list (string * pointer)),
    XpcDictApply dict_visitor lib ctx dict r = Some r' /\
    order ≡ₚ map_to_list entries /\
    new = (fun kv => EntryVisit ctx kv.1 kv.2) <$> order /\
    calls r' = calls r ++ new /\
    world r'
      = foldl (fun w kv => dict_visitor ctx kv.1 kv.2 w) (world r) order /\
    length new = size entries /\
    NoDup new /\
    (forall c : call,
       c ∈ new <->
       exists (k : string) (v : pointer),
         c = EntryVisit ctx k v /\ entries !! k = Some v) /\
    new ≡ₚ (fun kv => EntryVisit ctx kv.1 kv.2) <$> map_to_list entries.
Proof.
  intros Hdict. unfold XpcDictApply. rewrite Hdict.
  pose proof (dict_walk_enumerates lib entries) as Henum.
  eexists _, _, (dict_walk lib entries).
  split; [reflexivity |]. split; [exact Henum |]. split; [reflexivity |].
  split; [apply calls_for_each_dict |].
  split; [apply world_for_each_dict |].
  split; [| split; [| split]].
  - rewrite length_fmap, Henum. apply length_map_to_list.
  - apply (NoDup_fmap_2 _ (Inj0 := entry_visit_inj ctx)).
    rewrite Henum. apply NoDup_map_to_list.
  - intros c. rewrite list_elem_of_fmap. split.
    + intros ([k v] & -> & Hin). exists k, v. split; [done |].
      rewrite Henum in Hin. by apply elem_of_map_to_list in Hin.
    + intros (k & v & -> & Hkv). exists (k, v). split; [done |].
      rewrite Henum. by apply elem_of_map_to_list.
  - by rewrite Henum.
Qed.

Lemma dict_apply_visits_each_entry_witness :
  objects backwards_library !! 32%N = Some (PDict sample_entries) /\
  exists (r' : run nat) (new : list call) (order : list (string * pointer)),
    XpcDictApply counting_dict_visitor backwards_library 99%N 32%N (Run 0 [])
      = Some r' /\
    order ≡ₚ map_to_list sample_entries /\
    new = (fun kv => EntryVisit 99%N kv.1 kv.2) <$> order /\
    calls r' = [] ++ new /\
    world r'
      = foldl (fun w kv => counting_dict_visitor 99%N kv.1 kv.2 w) 0 order /\
    length new = size sample_entries /\
    NoDup new /\
    (forall c : call,
       c ∈ new <->
       exists (k : string) (v : pointer),
         c = EntryVisit 99%N k v /\ sample_entries !! k = Some v) /\
    new ≡ₚ (fun kv => EntryVisit 99%N kv.1 kv.2) <$> map_to_list sample_entries.
Proof.
  split; [reflexivity |].
  apply (dict_apply_visits_each_entry counting_dict_visitor backwards_library
           99%N 32%N sample_entries (Run 0 [])).
  reflexivity.
Defined.

(** The order of the visits is the library's: two libraries that arrange
    the same dictionary differently call the visitor in different orders,
    and as often. *)
Example dict_apply_order_is_the_librarys :
  let forwards :=
    XpcDictApply counting_dict_visitor sample_library 99%N 32%N (Run 0 []) in
  let backwards :=
    XpcDictApply counting_dict_visitor backwards_library 99%N 32%N (Run 0 []) in
  (calls <$> forwards) <> (calls <$> backwards) /\
  (world <$> forwards) = Some 2 /\ (world <$> backwards) = Some 2.
Proof. vm_compute. split; [discriminate | split; reflexivity]. Qed.

End XpcFacts.

(** * Further properties of an inclusion

    How the guard, the three includes and the declarations of the header
    act on an arbitrary translation unit, whatever the system headers are. *)

Module InclusionFacts.
Import Header Samples HeaderFacts.

Lemma guarded_header_leaves_alone (m guard : string) (d : decl) :
  m <> guard -> leaves_alone m (guarded_header guard d).
Proof.
  intros Hne u. unfold guarded_header, ifndef.
  destruct (decide (guard ∈ macros u)); [done |].
  unfold then_, declare, define; simpl.
  rewrite elem_of_union, elem_of_singleton.
  split; [intros [Heq | Hin]; [by destruct Hne | done] | by right].
Qed.


(** The macros a first inclusion leaves are those the three system headers
    leave, run in the order of the header after the guard is defined. *)
Lemma first_inclusion_macros (stdlib_h stdio_h xpc_xpc_h : directive)
    (u : unit_state) :
  "_WRAPPER_H_" ∉ macros u ->
  macros (xpc_wrapper_h stdlib_h stdio_h xpc_xpc_h u)
  = macros (xpc_xpc_h (stdio_h (stdlib_h (define "_WRAPPER_H_" u)))).
Proof.
  intros Hout. unfold xpc_wrapper_h. rewrite ifndef_undefined by done.
  reflexivity.
Qed.

(** Two inclusions agree as soon as their system headers leave the same
    unit behind. *)
Lemma inclusion_ext (s1 s2 s3 t1 t2 t3 : directive) (u : unit_state) :
  ("_WRAPPER_H_" ∉ macros u ->
   s3 (s2 (s1 (define "_WRAPPER_H_" u)))
   = t3 (t2 (t1 (define "_WRAPPER_H_" u)))) ->
  xpc_wrapper_h s1 s2 s3 u = xpc_wrapper_h t1 t2 t3 u.
Proof.
  intros Heq. unfold xpc_wrapper_h, ifndef.
  destruct (decide ("_WRAPPER_H_" ∈ macros u)) as [Hin | Hout]; [done |].
  unfold then_. by rewrite (Heq Hout).
Qed.



(** X2.  The guard is defined before the includes, so a system header that
    includes this header back finds the guard defined: the nested inclusion
    contributes nothing, at each of the three include positions, provided
    what runs between the guard's definition and the nested inclusion
    leaves the guard defined. *)
Theorem nested_inclusion_contributes_nothing
    (stdlib_h stdio_h xpc_xpc_h pre post a b c : directive) (u : unit_state) :
  keeps_defined "_WRAPPER_H_" stdlib_h ->
  keeps_defined "_WRAPPER_H_" stdio_h ->
  keeps_defined "_WRAPPER_H_" pre ->
  xpc_wrapper_h (pre ;; xpc_wrapper_h a b c ;; post)%header stdio_h xpc_xpc_h u
  = xpc_wrapper_h (pre ;; post)%header stdio_h xpc_xpc_h u /\
  xpc_wrapper_h stdlib_h (pre ;; xpc_wrapper_h a b c ;; post)%header xpc_xpc_h u
  = xpc_wrapper_h stdlib_h (pre ;; post)%header xpc_xpc_h u /\
  xpc_wrapper_h stdlib_h stdio_h (pre ;; xpc_wrapper_h a b c ;; post)%header u
  = xpc_wrapper_h stdlib_h stdio_h (pre ;; post)%header u.
Proof.
  intros Hlib Hio Hpre.
  assert (Hnested : forall v, "_WRAPPER_H_" ∈ macros v ->
            (pre ;; xpc_wrapper_h a b c ;; post)%header v
            = (pre ;; post)%header v).
  { intros v Hv. unfold then_.
    by rewrite (later_inclusion_is_empty a b c (pre v)) by by apply Hpre. }
  split; [| split]; apply inclusion_ext; intros _.
  - by rewrite Hnested by apply define_defines.
  - by rewrite Hnested by apply Hlib, define_defines.
  - by rewrite Hnested by apply Hio, Hlib, define_defines.
Qed.

Lemma nested_inclusion_contributes_nothing_witness :
  keeps_defined "_WRAPPER_H_" sample_stdlib_h /\
  keeps_defined "_WRAPPER_H_" sample_stdio_h /\
  keeps_defined "_WRAPPER_H_" sample_stdlib_h /\
  xpc_wrapper_h sample_stdlib_h sample_stdio_h
    (sample_stdlib_h ;;
     xpc_wrapper_h sample_stdlib_h sample_stdio_h sample_xpc_h ;;
     sample_xpc_h)%header fresh_unit
  = xpc_wrapper_h sample_stdlib_h sample_stdio_h
      (sample_stdlib_h ;; sample_xpc_h)%header fresh_unit.
Proof.
  do 3 (split; [apply guarded_header_keeps |]).
  apply (nested_inclusion_contributes_nothing
           sample_stdlib_h sample_stdio_h sample_xpc_h
           sample_stdlib_h sample_xpc_h
           sample_stdlib_h sample_stdio_h sample_xpc_h fresh_unit);
    apply guarded_header_keeps.
Defined.

(** X3.  The macro footprint of the header is its guard: for a macro that
    the three system headers neither define nor undefine, the macro is
    defined after the inclusion exactly when it was defined before or is
    the guard itself.  In particular the header undefines nothing and
    defines nothing but [_WRAPPER_H_]. *)
Theorem inclusion_macro_footprint
    (stdlib_h stdio_h xpc_xpc_h : directive) (m : string) :
  leaves_alone m stdlib_h ->
  leaves_alone m stdio_h ->
  leaves_alone m xpc_xpc_h ->
  forall u : unit_state,
    m ∈ macros (xpc_wrapper_h stdlib_h stdio_h xpc_xpc_h u)
    <-> m = "_WRAPPER_H_" \/ m ∈ macros u.
Proof.
  intros Hlib Hio Hxpc u.
  destruct (decide ("_WRAPPER_H_" ∈ macros u)) as [Hin | Hout].
  - rewrite later_inclusion_is_empty by done.
    split; [by right | intros [-> | Hm]; done].
  - rewrite first_inclusion_macros by done.
    rewrite (Hxpc _), (Hio _), (Hlib _). unfold define; simpl.
    by rewrite elem_of_union, elem_of_singleton.
Qed.

Lemma inclusion_macro_footprint_witness :
  leaves_alone "NDEBUG" sample_stdlib_h /\
  leaves_alone "NDEBUG" sample_stdio_h /\
  leaves_alone "NDEBUG" sample_xpc_h /\
  ("NDEBUG" ∈ macros (xpc_wrapper_h sample_stdlib_h sample_stdio_h
                        sample_xpc_h (define "NDEBUG" fresh_unit))
   <-> "NDEBUG" = "_WRAPPER_H_"
       \/ "NDEBUG" ∈ macros (define "NDEBUG" fresh_unit)).
Proof.
  do 3 (split; [by apply guarded_header_leaves_alone |]).
  apply (inclusion_macro_footprint sample_stdlib_h sample_stdio_h sample_xpc_h
           "NDEBUG"); by apply guarded_header_leaves_alone.
Defined.





End InclusionFacts.
